(** * Life_Map: the life-in-months grid of [streamlit_app.py]

    A shallow embedding of [create_life_months_grid], of the grid HTML of
    [render_life_months] and of [main] with its metrics and their formats,
    with the NumPy and Python operations they use:

    - Python integers are [Z]; [//] and [%] by a positive constant are
      [Z.div] and [Z.modulo] (both floor, as in Python);
    - a two-dimensional [int] array is a list of rows of cells, it lives in
      a store of arrays and is named by its position there, so that
      [grid[row, col] = v] is a write into the store;
    - an exception ends the computation: a call returns either the
      exception or its value with the store it leaves;
    - the percentage is a binary64 float ([PrimFloat]).

    The size of an array is not modelled: [np.zeros] succeeds at every
    non-negative shape, where NumPy refuses a shape too big for memory or
    for its size limit.  What is stated about a call returning or raising
    is stated for arguments the sliders can give or of a bounded
    magnitude. *)

From Stdlib Require Import ZArith Lia Floats Uint63 Ascii String.
From Stdlib Require Import DecimalString DecimalN.
From stdpp Require Import base list gmap strings.

Local Open Scope Z_scope.

(** ** Python exceptions and results *)

Module Py.

(** The exceptions the modelled code can raise. *)
Inductive exn : Type :=
| IndexError
| ValueError
| ZeroDivisionError.

Definition result (A : Type) : Type := exn + A.

(** [range(n)]: the integers [0 .. n-1], none when [n <= 0]. *)
Definition range (n : Z) : list Z := Z.of_nat <$> seq 0 (Z.to_nat n).

(** [int / int] is true division: it raises on a zero divisor and
    otherwise yields the correctly rounded quotient.  The conversion
    below is exact for operands of magnitude below [2^53], where the
    IEEE quotient of the converted operands is that rounded quotient. *)
Definition float_of_int (z : Z) : float :=
  if z <? 0 then PrimFloat.opp (PrimFloat.of_uint63 (Uint63.of_Z (- z)))
  else PrimFloat.of_uint63 (Uint63.of_Z z).

Definition truediv (a b : Z) : result float :=
  if b =? 0 then inl ZeroDivisionError
  else inr (PrimFloat.div (float_of_int a) (float_of_int b)).

End Py.

Import Py.

(** ** NumPy arrays of two dimensions *)

Module Np.

(** The value of an array: its rows, each a list of cells. *)
Abbreviation ndarray := (list (list Z)).

(** [np.zeros((rows, cols), dtype=int)]; a negative dimension is a
    [ValueError].  The refusal of a shape that is too big is left out. *)
Definition zeros (rows cols : Z) : result ndarray :=
  if (rows <? 0) || (cols <? 0) then inl ValueError
  else inr (replicate (Z.to_nat rows) (replicate (Z.to_nat cols) 0)).

(** Index normalisation along an axis of extent [n]: [0 <= i < n] is
    itself, [-n <= i < 0] counts from the end, anything else is out of
    bounds. *)
Definition norm_index (n : nat) (i : Z) : option nat :=
  if (0 <=? i) && (i <? Z.of_nat n) then Some (Z.to_nat i)
  else if (- Z.of_nat n <=? i) && (i <? 0) then Some (Z.to_nat (i + Z.of_nat n))
  else None.

(** [a[row, col] = v] on the value of the array. *)
Definition setitem (a : ndarray) (row col v : Z) : result ndarray :=
  match norm_index (length a) row with
  | None => inl IndexError
  | Some r =>
      match a !! r with
      | None => inl IndexError
      | Some cells =>
          match norm_index (length cells) col with
          | None => inl IndexError
          | Some c => inr (<[r := <[c := v]> cells]> a)
          end
      end
  end.

(** The cell at a row and a column, when there is one. *)
Definition cell (a : ndarray) (r c : nat) : option Z :=
  cells ← a !! r; cells !! c.

(** The shape [(rows, cols)] of a rectangular array. *)
Definition has_shape (a : ndarray) (rows cols : nat) : Prop :=
  length a = rows ∧ Forall (λ cells, length cells = cols) a.

End Np.

Import Np.

(** ** The store and the computations over it *)

(** Arrays are objects: the store lists the arrays allocated so far and a
    reference is a position in it. *)
Abbreviation loc := nat.
Abbreviation heap := (list ndarray).

(** A computation reads and writes the store and may raise. *)
Definition M (A : Type) : Type := heap → exn + (A * heap).

Global Instance M_ret : MRet M := λ A (x : A) (h : heap), inr (x, h).

Global Instance M_bind : MBind M := λ A B (f : A → M B) (m : M A) (h : heap),
  match m h with
  | inl e => inl e
  | inr (x, h') => f x h'
  end.

(** Raise when a pure step raised. *)
Definition lift {A : Type} (r : result A) : M A := λ h,
  match r with
  | inl e => inl e
  | inr x => inr (x, h)
  end.

(** Allocation of a new array: its reference is fresh. *)
Definition alloc (a : ndarray) : M loc := λ h, inr (length h, h ++ [a]).

(** The array a reference names.  Every reference comes from [alloc], so
    the default is never read. *)
Definition deref (l : loc) : M ndarray := λ h, inr (h !!! l, h).

Definition store (l : loc) (a : ndarray) : M unit := λ h, inr (tt, <[l := a]> h).

Definition np_zeros (rows cols : Z) : M loc :=
  a ← lift (zeros rows cols); alloc a.

(** [grid[row, col] = v]: the array is updated in place. *)
Definition np_setitem (grid : loc) (row col v : Z) : M unit :=
  a ← deref grid; a' ← lift (setitem a row col v); store grid a'.

(** [for x in xs: body]. *)
Fixpoint for_each {A : Type} (xs : list A) (body : A → M unit) : M unit :=
  match xs with
  | [] => mret tt
  | x :: xs' => _ ← body x; for_each xs' body
  end.

(** ** [create_life_months_grid] *)

Definition create_life_months_grid (life_span current_age : Z) : M loc :=
  let total_months := life_span * 12 in
  grid ← np_zeros (life_span / 3 + 1) 36;
  let current_months_lived := current_age * 12 in
  _ ← for_each (range current_months_lived) (λ month,
        let row := month / 36 in
        let col := month mod 36 in
        np_setitem grid row col 1);
  let current_row := (current_months_lived - 1) / 36 in
  let current_col := (current_months_lived - 1) mod 36 in
  _ ← np_setitem grid current_row current_col 2;
  mret grid.

(** ** The metrics section of [main] *)

Record metrics : Type := Metrics {
  months_lived : Z;
  months_total : Z;
  percentage_lived : float
}.

Definition compute_metrics (expected_lifespan current_age : Z) : result metrics :=
  let months_lived := current_age * 12 in
  let months_total := expected_lifespan * 12 in
  match truediv months_lived months_total with
  | inl e => inl e
  | inr q => inr (Metrics months_lived months_total (PrimFloat.mul q 100%float))
  end.

(** [main] after the two sliders: the grid is built first, then the
    metrics are computed (rendering only reads them). *)
Definition main_compute (expected_lifespan current_age : Z) : M (loc * metrics) :=
  life_grid ← create_life_months_grid expected_lifespan current_age;
  m ← lift (compute_metrics expected_lifespan current_age);
  mret (life_grid, m).

(** ** What a call returns *)

(** [m] run in store [h] returns a reference to an array of value [g]. *)
Definition returns (m : M loc) (h : heap) (g : ndarray) : Prop :=
  ∃ l h', m h = inr (l, h') ∧ h' !! l = Some g.

(** The grid a call builds in the empty store, for evaluation. *)
Definition grid_of (life_span current_age : Z) : result ndarray :=
  match create_life_months_grid life_span current_age [] with
  | inl e => inl e
  | inr (l, h) => inr (h !!! l)
  end.

(** ** The value a call builds

    The store only carries the array: its value is a function of the two
    arguments.  [fill] and [grid_value] follow the writes on the value of
    the array; [create_life_months_grid_run] below ties them to the call. *)

Fixpoint fill (a : ndarray) (months : list Z) : result ndarray :=
  match months with
  | [] => inr a
  | month :: rest =>
      match setitem a (month / 36) (month mod 36) 1 with
      | inl e => inl e
      | inr a' => fill a' rest
      end
  end.

Definition grid_value (life_span current_age : Z) : result ndarray :=
  match zeros (life_span / 3 + 1) 36 with
  | inl e => inl e
  | inr a =>
      match fill a (range (current_age * 12)) with
      | inl e => inl e
      | inr a' =>
          setitem a' ((current_age * 12 - 1) / 36) ((current_age * 12 - 1) mod 36) 2
      end
  end.

(** The linear month index of the cell at a row and a column: the grid
    wraps every 36 months. *)
Definition linear (r c : nat) : Z := 36 * Z.of_nat r + Z.of_nat c.

(** ** [render_life_months]

    The function writes a heading, the grid and a legend to the page.  The
    heading and the legend are fixed text; what is computed is the grid's
    HTML, which is what is modelled. *)

(** A dict lookup raises [KeyError], which the grid builder never does:
    rendering and [main] raise one of the builder's exceptions or this
    one. *)
Inductive raised : Type :=
| Raised (e : exn)
| KeyError.

Definition color_map : gmap Z string :=
  {[ 0 := "lightgray"%string; 1 := "blue"%string; 2 := "red"%string ]}.

(** The opening tag of the grid. *)
Definition grid_open : string :=
  "<div style='display: grid; grid-template-columns: repeat(36, 1fr); gap: 2px; width: 100%; max-width: 800px;'>".

(** The [div] of one cell, the f-string of the inner loop. *)
Definition cell_div (color : string) : string :=
  "<div style='aspect-ratio: 1; background-color: " +:+ color +:+ ";'></div>".

(** [for cell in row: ...], appending to [grid_html]. *)
Fixpoint render_cells (grid_html : string) (row : list Z) : raised + string :=
  match row with
  | [] => inr grid_html
  | cell :: rest =>
      match color_map !! cell with
      | None => inl KeyError
      | Some color => render_cells (grid_html +:+ cell_div color) rest
      end
  end.

(** [for row in grid: ...]. *)
Fixpoint render_rows (grid_html : string) (grid : ndarray) : raised + string :=
  match grid with
  | [] => inr grid_html
  | row :: rest =>
      match render_cells grid_html row with
      | inl e => inl e
      | inr grid_html' => render_rows grid_html' rest
      end
  end.

(** The HTML [render_life_months] hands to [st.markdown]. *)
Definition render_life_months (grid : ndarray) : raised + string :=
  match render_rows grid_open grid with
  | inl e => inl e
  | inr grid_html => inr (grid_html +:+ "</div>")
  end.

(** The [div]s of a run of cells, one after the other. *)
Definition divs (colors : list string) : string :=
  foldr (λ color rest, cell_div color +:+ rest) ""%string colors.

(** ** The formats of the three metrics *)

(** [str(n)] for a natural number. *)
Definition dec (n : N) : string := NilZero.string_of_uint (N.to_uint n).

(** A separator after every third digit, on the digits from the right. *)
Fixpoint group3 (rev_digits : list ascii) : list ascii :=
  match rev_digits with
  | d0 :: d1 :: d2 :: rest =>
      match rest with
      | [] => rev_digits
      | _ :: _ => d0 :: d1 :: d2 :: ","%char :: group3 rest
      end
  | _ => rev_digits
  end.


(** [f"{n:,}"]: the decimal digits in groups of three, the sign first. *)
Definition format_thousands (n : Z) : string :=
  (if n <? 0 then "-" else "") +:+
  string_of_list_ascii
    (reverse (group3 (reverse (list_ascii_of_string (dec (Z.abs_N n)))))).

(** [num / den] rounded to the nearest integer, ties to the even one
    ([den] positive). *)
Definition round_half_even (num den : Z) : Z :=
  let q := num / den in
  let r := num mod den in
  if 2 * r <? den then q
  else if den <? 2 * r then q + 1
  else if Z.even q then q else q + 1.

(** Two decimal digits. *)
Definition pad2 (d : Z) : string :=
  dec (Z.to_N (d / 10)) +:+ dec (Z.to_N (d mod 10)).

(** The hundredths [f"{x:.2f}"] prints: the exact value of the float times
    100, rounded to the nearest integer, ties to even. *)
Definition hundredths (m : positive) (e : Z) : Z :=
  if 0 <=? e then Z.pos m * 2 ^ e * 100
  else round_half_even (Z.pos m * 100) (2 ^ (- e)).

(** [f"{x:.2f}"]. *)
Definition format_2f (x : float) : string :=
  match Prim2SF x with
  | S754_nan => "nan"
  | S754_infinity s => if s then "-inf" else "inf"
  | S754_zero s => if s then "-0.00" else "0.00"
  | S754_finite s m e =>
      let q := hundredths m e in
      (if s then "-" else "") +:+ dec (Z.to_N (q / 100)) +:+ "." +:+ pad2 (q mod 100)
  end.

(** ** [main]

    What [main] shows for the values of its two sliders: the grid's HTML
    and the texts of the three metrics.  The grid is built and rendered
    before the metrics are computed. *)

Record view : Type := View {
  grid_html : string;
  months_lived_text : string;
  months_total_text : string;
  percentage_text : string
}.

Definition main (expected_lifespan current_age : Z) (h : heap)
  : raised + (view * heap) :=
  match create_life_months_grid expected_lifespan current_age h with
  | inl e => inl (Raised e)
  | inr (life_grid, h') =>
      match render_life_months (h' !!! life_grid) with
      | inl e => inl e
      | inr html =>
          match compute_metrics expected_lifespan current_age with
          | inl e => inl (Raised e)
          | inr m =>
              inr (View html
                        (format_thousands (months_lived m))
                        (format_thousands (months_total m))
                        (format_2f (percentage_lived m) +:+ "%"),
                   h')
          end
      end
  end.

(** The values the two sliders can take. *)
Definition slider_values (expected_lifespan current_age : Z) : Prop :=
  50 ≤ expected_lifespan ≤ 120 ∧ 0 ≤ current_age ≤ expected_lifespan.

(** The same values, listed, for the checks that go through all of them. *)
Definition slider_pairs : list (Z * Z) :=
  expected_lifespan ← (λ i, 50 + i) <$> range 71;
  (λ current_age, (expected_lifespan, current_age)) <$> range (expected_lifespan + 1).

(** The percentage of a slider setting is between 0 and 100, is 100 only
    at the end of the life and 0 only at its start. *)
Definition percentage_in_range (expected_lifespan current_age : Z) : bool :=
  match compute_metrics expected_lifespan current_age with
  | inl _ => false
  | inr m =>
      PrimFloat.leb 0 (percentage_lived m)
      && PrimFloat.leb (percentage_lived m) 100
      && Bool.eqb (PrimFloat.eqb (percentage_lived m) 100)
                  (current_age =? expected_lifespan)
      && Bool.eqb (PrimFloat.eqb (percentage_lived m) 0) (current_age =? 0)
  end.

(** The percentage [100 * age / lifespan] in hundredths, rounded to the
    nearest, ties to even, and its text. *)
Definition exact_hundredths (expected_lifespan current_age : Z) : Z :=
  round_half_even (10000 * current_age) expected_lifespan.

Definition hundredths_text (q : Z) : string :=
  dec (Z.to_N (q / 100)) +:+ "." +:+ pad2 (q mod 100).

Definition percentage_text_exact (expected_lifespan current_age : Z) : bool :=
  match compute_metrics expected_lifespan current_age with
  | inl _ => false
  | inr m =>
      String.eqb (format_2f (percentage_lived m))
                 (hundredths_text (exact_hundredths expected_lifespan current_age))
  end.

(** * Proofs *)

(** ** The code on small inputs *)

Example grid_3_1 :
  grid_of 3 1 =
  inr [ [1;1;1;1;1;1;1;1;1;1;1;2;0;0;0;0;0;0;0;0;0;0;0;0;0;0;0;0;0;0;0;0;0;0;0;0];
        [0;0;0;0;0;0;0;0;0;0;0;0;0;0;0;0;0;0;0;0;0;0;0;0;0;0;0;0;0;0;0;0;0;0;0;0] ].
Proof. reflexivity. Qed.

(** One row and no lived month: the current month lands on the last
    cell of that row. *)
Example grid_0_0 :
  grid_of 0 0 =
  inr [ [0;0;0;0;0;0;0;0;0;0;0;0;0;0;0;0;0;0;0;0;0;0;0;0;0;0;0;0;0;0;0;0;0;0;0;2] ].
Proof. reflexivity. Qed.

Example grid_3_7_raises : grid_of 3 7 = inl IndexError.
Proof. reflexivity. Qed.

Example grid_negative_rows_raises : grid_of (-4) 0 = inl ValueError.
Proof. reflexivity. Qed.

Example main_90_30 :
  ∃ l h p, main_compute 90 30 [] = inr ((l, Metrics 360 1080 p), h)
           ∧ cell (h !!! l) 9 35 = Some 2
           ∧ cell (h !!! l) 10 0 = Some 0.
Proof. eexists _, _, _. split; [by vm_compute|]. split; reflexivity. Qed.

Example main_0_0_raises : main_compute 0 0 [] = inl ZeroDivisionError.
Proof. reflexivity. Qed.

Ltac Zify.zify_post_hook ::= Z.to_euclidean_division_equations.

(** ** Indices *)

Lemma norm_index_nonneg (n : nat) (i : Z) :
  0 ≤ i < Z.of_nat n → norm_index n i = Some (Z.to_nat i).
Proof.
  intros Hi. unfold norm_index.
  destruct (Z.leb_spec 0 i), (Z.ltb_spec i (Z.of_nat n)); simpl; (done || lia).
Qed.

Lemma norm_index_neg (n : nat) (i : Z) :
  - Z.of_nat n ≤ i < 0 → norm_index n i = Some (Z.to_nat (i + Z.of_nat n)).
Proof.
  intros Hi. unfold norm_index.
  destruct (Z.leb_spec 0 i), (Z.ltb_spec i (Z.of_nat n)),
    (Z.leb_spec (- Z.of_nat n) i), (Z.ltb_spec i 0); simpl; (done || lia).
Qed.

Lemma norm_index_out (n : nat) (i : Z) :
  i < - Z.of_nat n ∨ Z.of_nat n ≤ i → norm_index n i = None.
Proof.
  intros Hi. unfold norm_index.
  destruct (Z.leb_spec 0 i), (Z.ltb_spec i (Z.of_nat n)),
    (Z.leb_spec (- Z.of_nat n) i), (Z.ltb_spec i 0); simpl; (done || lia).
Qed.

Lemma norm_index_lt (n : nat) (i : Z) (k : nat) :
  norm_index n i = Some k → (k < n)%nat.
Proof.
  unfold norm_index.
  destruct (Z.leb_spec 0 i), (Z.ltb_spec i (Z.of_nat n)),
    (Z.leb_spec (- Z.of_nat n) i), (Z.ltb_spec i 0); simpl;
    intros [= <-]; lia.
Qed.

(** ** Arrays *)

Lemma zeros_shape (rows cols : nat) :
  has_shape (replicate rows (replicate cols 0)) rows cols.
Proof.
  split; [apply length_replicate|].
  apply Forall_replicate, length_replicate.
Qed.

Lemma zeros_cell (rows cols r c : nat) :
  (r < rows)%nat → (c < cols)%nat →
  cell (replicate rows (replicate cols 0)) r c = Some 0.
Proof.
  intros Hr Hc. unfold cell.
  rewrite lookup_replicate_2 by done. simpl.
  by apply lookup_replicate_2.
Qed.

Lemma zeros_36 (rows : Z) :
  0 ≤ rows →
  zeros rows 36 = inr (replicate (Z.to_nat rows) (replicate 36%nat 0)).
Proof.
  intros H. unfold zeros. by destruct (Z.ltb_spec rows 0); [lia|].
Qed.

(** A write inside the array changes the one cell it names. *)
Lemma setitem_spec (a : ndarray) (rows cols : nat) (row col v : Z) (r c : nat) :
  has_shape a rows cols →
  norm_index rows row = Some r →
  norm_index cols col = Some c →
  ∃ a', setitem a row col v = inr a'
        ∧ has_shape a' rows cols
        ∧ ∀ r' c', cell a' r' c' =
                   if decide (r' = r ∧ c' = c) then Some v else cell a r' c'.
Proof.
  intros [Hlen Hall] Hr Hc.
  pose proof (norm_index_lt _ _ _ Hr) as Hrlt.
  pose proof (norm_index_lt _ _ _ Hc) as Hclt.
  destruct (lookup_lt_is_Some_2 a r) as [cells Hcells]; [lia|].
  assert (length cells = cols) as Hcl
    by (eapply (proj1 (Forall_lookup _ _) Hall); eauto).
  exists (<[r := <[c := v]> cells]> a). split; [|split; [split|]].
  - unfold setitem. by rewrite Hlen, Hr, Hcells, Hcl, Hc.
  - by rewrite length_insert.
  - apply Forall_insert; [done|]. by rewrite length_insert.
  - intros r' c'. unfold cell.
    destruct (decide (r' = r)) as [->|Hne].
    + rewrite list_lookup_insert_eq by lia. simpl.
      rewrite Hcells. simpl.
      destruct (decide (c' = c)) as [->|Hcne].
      * rewrite list_lookup_insert_eq by lia. by rewrite decide_True.
      * rewrite list_lookup_insert_ne by done. by rewrite decide_False by tauto.
    + rewrite list_lookup_insert_ne by done. by rewrite decide_False by tauto.
Qed.

(** A write whose row is outside the array raises. *)
Lemma setitem_row_out (a : ndarray) (row col v : Z) :
  norm_index (length a) row = None → setitem a row col v = inl IndexError.
Proof. intros H. unfold setitem. by rewrite H. Qed.

(** ** The loop over the lived months *)

Lemma linear_row_col (m : Z) (r c : nat) :
  0 ≤ m → (c < 36)%nat →
  (r = Z.to_nat (m / 36) ∧ c = Z.to_nat (m mod 36)) ↔ linear r c = m.
Proof. unfold linear. lia. Qed.

(** Writing status 1 at the months [j .. j+k-1], all inside the grid,
    succeeds and changes exactly those cells. *)
Lemma fill_spec (rows : nat) (k j : nat) (a : ndarray) :
  has_shape a rows 36 →
  (j + k ≤ 36 * rows)%nat →
  ∃ a', fill a (Z.of_nat <$> seq j k) = inr a'
        ∧ has_shape a' rows 36
        ∧ ∀ r c, (c < 36)%nat →
            cell a' r c =
            if decide (Z.of_nat j ≤ linear r c < Z.of_nat (j + k)) then Some 1
            else cell a r c.
Proof.
  revert j a. induction k as [|k IH]; intros j a Hsh Hle.
  - exists a. split; [done|]. split; [done|].
    intros r c _. rewrite decide_False by lia. done.
  - simpl.
    destruct (setitem_spec a rows 36 (Z.of_nat j / 36) (Z.of_nat j mod 36) 1
                (Z.to_nat (Z.of_nat j / 36)) (Z.to_nat (Z.of_nat j mod 36)) Hsh)
      as (a1 & Hset & Hsh1 & Hcell1).
    { apply norm_index_nonneg. lia. }
    { apply norm_index_nonneg. lia. }
    rewrite Hset.
    destruct (IH (S j) a1 Hsh1) as (a2 & Hfill & Hsh2 & Hcell2); [lia|].
    exists a2. split; [done|]. split; [done|].
    intros r c Hc. rewrite Hcell2, Hcell1 by done.
    pose proof (linear_row_col (Z.of_nat j) r c) as Hlin.
    repeat case_decide; try done; lia.
Qed.

(** The first month outside the grid stops the loop with an
    [IndexError]. *)
Lemma fill_overflow (rows : nat) (k : nat) (a : ndarray) :
  has_shape a rows 36 →
  (36 * rows < k)%nat →
  fill a (Z.of_nat <$> seq 0 k) = inl IndexError.
Proof.
  intros Hsh Hlt.
  assert (∀ xs ys b, fill b (xs ++ ys) =
            match fill b xs with inl e => inl e | inr b' => fill b' ys end)
    as Happ.
  { induction xs as [|x xs IHxs]; intros ys b; simpl; [done|].
    destruct (setitem b _ _ _); [done|apply IHxs]. }
  replace k with (36 * rows + S (k - 36 * rows - 1))%nat by lia.
  rewrite seq_app, fmap_app, Happ.
  destruct (fill_spec rows (36 * rows) 0 a Hsh) as (a' & -> & [Hlen _] & _); [lia|].
  simpl. rewrite setitem_row_out; [done|].
  rewrite Hlen. apply norm_index_out. lia.
Qed.

(** ** The call and the value it builds *)

Lemma bind_run {A B : Type} (m : M A) (f : A → M B) (h : heap) :
  (m ≫= f) h = match m h with inl e => inl e | inr (x, h') => f x h' end.
Proof. reflexivity. Qed.

Lemma np_setitem_run (l : loc) (row col v : Z) (h : heap) (a : ndarray) :
  h !! l = Some a →
  np_setitem l row col v h =
  match setitem a row col v with
  | inl e => inl e
  | inr a' => inr (tt, <[l := a']> h)
  end.
Proof.
  intros Hl. unfold np_setitem. rewrite !bind_run. unfold deref, lift, store.
  rewrite (list_lookup_total_correct _ _ _ Hl).
  by destruct (setitem a row col v).
Qed.

Lemma for_each_fill (l : loc) (months : list Z) (h : heap) (a : ndarray) :
  h !! l = Some a →
  for_each months (λ month, np_setitem l (month / 36) (month mod 36) 1) h =
  match fill a months with
  | inl e => inl e
  | inr a' => inr (tt, <[l := a']> h)
  end.
Proof.
  revert h a. induction months as [|m ms IH]; intros h a Hl; simpl.
  - unfold mret, M_ret. by rewrite list_insert_id.
  - rewrite bind_run, (np_setitem_run _ _ _ _ _ _ Hl).
    destruct (setitem a (m / 36) (m mod 36) 1) as [e|a1]; [done|].
    rewrite (IH (<[l := a1]> h) a1).
    + destruct (fill a1 ms); [done|]. by rewrite list_insert_insert_eq.
    + apply list_lookup_insert_eq. by eapply lookup_lt_Some.
Qed.

(** A call allocates one array, at the end of the store, and leaves there
    the value [grid_value] computes; it raises when [grid_value] does. *)
Lemma create_life_months_grid_run (life_span current_age : Z) (h : heap) :
  create_life_months_grid life_span current_age h =
  match grid_value life_span current_age with
  | inl e => inl e
  | inr g => inr (length h, h ++ [g])
  end.
Proof.
  unfold create_life_months_grid, grid_value, np_zeros. cbv zeta.
  rewrite !bind_run. unfold lift at 1.
  destruct (zeros (life_span / 3 + 1) 36) as [e|a0]; [done|].
  unfold alloc at 1.
  assert ((h ++ [a0]) !! length h = Some a0) as Hl
    by (rewrite lookup_app_r by lia; by rewrite Nat.sub_diag).
  rewrite bind_run, (for_each_fill (length h) _ (h ++ [a0]) a0 Hl).
  destruct (fill a0 (range (current_age * 12))) as [e|a1]; [done|].
  rewrite bind_run, (np_setitem_run _ _ _ _ _ a1).
  - destruct (setitem a1 _ _ 2) as [e|g]; [done|].
    unfold mret, M_ret.
    rewrite list_insert_insert_eq.
    rewrite insert_app_r_alt by lia. by rewrite Nat.sub_diag.
  - apply list_lookup_insert_eq. rewrite length_app. simpl. lia.
Qed.

(** ** The grid, case by case *)

(** With at least one lived month and all of them inside the grid, the
    call succeeds: the lived months but the last hold 1, the last holds 2
    and the rest hold 0. *)
Lemma grid_value_lived (life_span current_age : Z) :
  1 ≤ current_age * 12 ≤ 36 * (life_span / 3 + 1) →
  ∃ g, grid_value life_span current_age = inr g
       ∧ has_shape g (Z.to_nat (life_span / 3 + 1)) 36
       ∧ ∀ r c, (r < Z.to_nat (life_span / 3 + 1))%nat → (c < 36)%nat →
           cell g r c =
           Some (if decide (linear r c < current_age * 12 - 1) then 1
                 else if decide (linear r c = current_age * 12 - 1) then 2
                 else 0).
Proof.
  intros Hn. unfold grid_value.
  set (rows := life_span / 3 + 1) in *. set (n := current_age * 12) in *.
  rewrite zeros_36 by lia.
  destruct (fill_spec (Z.to_nat rows) (Z.to_nat n) 0 _
              (zeros_shape (Z.to_nat rows) 36))
    as (a1 & Hfill & Hsh1 & Hcell1); [lia|].
  unfold range. rewrite Hfill.
  destruct (setitem_spec a1 (Z.to_nat rows) 36 ((n - 1) / 36) ((n - 1) mod 36) 2
              (Z.to_nat ((n - 1) / 36)) (Z.to_nat ((n - 1) mod 36)) Hsh1)
    as (g & Hset & Hsh & Hcell).
  { apply norm_index_nonneg. lia. }
  { apply norm_index_nonneg. lia. }
  exists g. split; [done|]. split; [done|].
  intros r c Hr Hc. rewrite Hcell, Hcell1 by done.
  rewrite zeros_cell by done.
  pose proof (linear_row_col (n - 1) r c ltac:(lia) Hc) as Hlin.
  change (Z.of_nat 0) with 0 in *. rewrite Nat.add_0_l, Z2Nat.id in * by lia.
  assert (0 ≤ linear r c) by (unfold linear; lia).
  repeat case_decide; try done; lia.
Qed.

(** With no lived month the loop does nothing and the index of the
    current month is negative: its row counts from the end of the grid.
    When that row exists the call succeeds and the grid holds one 2. *)
Lemma grid_value_unborn (life_span current_age : Z) :
  current_age * 12 ≤ 0 →
  - (life_span / 3 + 1) ≤ (current_age * 12 - 1) / 36 →
  ∃ g, grid_value life_span current_age = inr g
       ∧ has_shape g (Z.to_nat (life_span / 3 + 1)) 36
       ∧ ∀ r c, (r < Z.to_nat (life_span / 3 + 1))%nat → (c < 36)%nat →
           cell g r c =
           Some (if decide (Z.of_nat r = life_span / 3 + 1 + (current_age * 12 - 1) / 36
                            ∧ Z.of_nat c = (current_age * 12 - 1) mod 36)
                 then 2 else 0).
Proof.
  intros Hn Hrow. unfold grid_value.
  set (rows := life_span / 3 + 1) in *. set (n := current_age * 12) in *.
  rewrite zeros_36 by lia.
  unfold range. replace (Z.to_nat n) with 0%nat by lia. simpl.
  destruct (setitem_spec (replicate (Z.to_nat rows) (replicate 36 0))
              (Z.to_nat rows) 36 ((n - 1) / 36) ((n - 1) mod 36) 2
              (Z.to_nat ((n - 1) / 36 + Z.of_nat (Z.to_nat rows)))
              (Z.to_nat ((n - 1) mod 36)) (zeros_shape _ _))
    as (g & Hset & Hsh & Hcell).
  { apply norm_index_neg. lia. }
  { apply norm_index_nonneg. lia. }
  exists g. split; [done|]. split; [done|].
  intros r c Hr Hc. rewrite Hcell.
  rewrite zeros_cell by done.
  repeat case_decide; try done; lia.
Qed.

(** A negative row count is refused by [np.zeros]. *)
Lemma grid_value_negative_rows (life_span current_age : Z) :
  life_span / 3 + 1 < 0 → grid_value life_span current_age = inl ValueError.
Proof.
  intros H. unfold grid_value, zeros.
  destruct (Z.ltb_spec (life_span / 3 + 1) 0); [done|lia].
Qed.

(** More lived months than cells: the loop runs off the grid. *)
Lemma grid_value_too_old (life_span current_age : Z) :
  0 ≤ life_span / 3 + 1 →
  36 * (life_span / 3 + 1) < current_age * 12 →
  grid_value life_span current_age = inl IndexError.
Proof.
  intros Hrows Hn. unfold grid_value. rewrite zeros_36 by done.
  unfold range.
  rewrite (fill_overflow (Z.to_nat (life_span / 3 + 1))); [done| |lia].
  apply zeros_shape.
Qed.

(** No lived month and a current row before the first one. *)
Lemma grid_value_too_young (life_span current_age : Z) :
  0 ≤ life_span / 3 + 1 →
  current_age * 12 ≤ 0 →
  (current_age * 12 - 1) / 36 < - (life_span / 3 + 1) →
  grid_value life_span current_age = inl IndexError.
Proof.
  intros Hrows Hn Hrow. unfold grid_value. rewrite zeros_36 by done.
  unfold range. replace (Z.to_nat (current_age * 12)) with 0%nat by lia. simpl.
  apply setitem_row_out. rewrite length_replicate.
  apply norm_index_out. lia.
Qed.

(** ** From the value to the call *)

Lemma returns_grid_value (life_span current_age : Z) (g : ndarray) (h : heap) :
  grid_value life_span current_age = inr g →
  returns (create_life_months_grid life_span current_age) h g.
Proof.
  intros Hg. exists (length h), (h ++ [g]).
  rewrite create_life_months_grid_run, Hg. split; [done|].
  rewrite lookup_app_r by lia. by rewrite Nat.sub_diag.
Qed.

Lemma raises_grid_value (life_span current_age : Z) (e : exn) (h : heap) :
  grid_value life_span current_age = inl e →
  create_life_months_grid life_span current_age h = inl e.
Proof. intros Hg. by rewrite create_life_months_grid_run, Hg. Qed.

(** Only the cells inside the shape exist. *)
Lemma cell_inside (g : ndarray) (rows cols r c : nat) (v : Z) :
  has_shape g rows cols → cell g r c = Some v → (r < rows)%nat ∧ (c < cols)%nat.
Proof.
  intros [Hlen Hall]. unfold cell.
  destruct (g !! r) as [cells|] eqn:Hr; simpl; [|done].
  intros Hc. split.
  - rewrite <- Hlen. by eapply lookup_lt_Some.
  - rewrite <- (proj1 (Forall_lookup _ _) Hall _ _ Hr). by eapply lookup_lt_Some.
Qed.

(** The rows a valid life span needs hold every lived month. *)
Lemma lived_months_fit (life_span current_age : Z) :
  current_age ≤ life_span → current_age * 12 ≤ 36 * (life_span / 3 + 1).
Proof. lia. Qed.

(** Inside the sliders' ranges the call builds a grid of the announced
    shape, lived months or not. *)
Lemma grid_value_valid (life_span current_age : Z) :
  50 ≤ life_span ≤ 120 →
  0 ≤ current_age ≤ life_span →
  ∃ g, grid_value life_span current_age = inr g
       ∧ has_shape g (Z.to_nat (life_span / 3 + 1)) 36.
Proof.
  intros HL Ha. destruct (decide (current_age = 0)) as [->|Hne].
  - destruct (grid_value_unborn life_span 0) as (g & Hg & Hsh & _);
      [lia | lia | eauto].
  - destruct (grid_value_lived life_span current_age) as (g & Hg & Hsh & _);
      [lia | eauto].
Qed.

(** * The claims *)

(** C1: for 50 <= lifespan <= 120 and 0 < age <= lifespan the call returns
    a grid in which exactly one cell holds status 2, the one at linear index
    age*12 - 1 (row (age*12-1) div 36, column (age*12-1) mod 36); every
    cell of linear index below age*12 - 1 holds 1 and every cell of linear
    index at least age*12 holds 0. *)
Theorem C1_lived_current_future (life_span current_age : Z) (h : heap) :
  50 ≤ life_span ≤ 120 →
  0 < current_age ≤ life_span →
  ∃ g, returns (create_life_months_grid life_span current_age) h g
       ∧ has_shape g (Z.to_nat (life_span / 3 + 1)) 36
       ∧ (∀ r c, cell g r c = Some 2 ↔
                 r = Z.to_nat ((current_age * 12 - 1) / 36)
                 ∧ c = Z.to_nat ((current_age * 12 - 1) mod 36))
       ∧ (∀ r c, cell g r c = Some 2 ↔
                 (c < 36)%nat ∧ linear r c = current_age * 12 - 1)
       ∧ (∀ r c, (r < Z.to_nat (life_span / 3 + 1))%nat → (c < 36)%nat →
                 linear r c < current_age * 12 - 1 → cell g r c = Some 1)
       ∧ (∀ r c, (r < Z.to_nat (life_span / 3 + 1))%nat → (c < 36)%nat →
                 current_age * 12 ≤ linear r c → cell g r c = Some 0).
Proof.
  intros HL Ha.
  destruct (grid_value_lived life_span current_age) as (g & Hg & Hsh & Hcell).
  { pose proof (lived_months_fit life_span current_age). lia. }
  exists g. split; [by apply returns_grid_value|]. split; [done|].
  assert (∀ r c, cell g r c = Some 2 ↔
                 (c < 36)%nat ∧ linear r c = current_age * 12 - 1) as H2.
  { intros r c. split.
    - intros Hc. destruct (cell_inside _ _ _ _ _ _ Hsh Hc) as [Hr Hc'].
      rewrite Hcell in Hc by done.
      repeat case_decide; (done || lia).
    - intros [Hc Hlin].
      assert (r < Z.to_nat (life_span / 3 + 1))%nat by (unfold linear in Hlin; lia).
      rewrite Hcell by done.
      rewrite decide_False, decide_True by lia. done. }
  split; [|split; [done|split]].
  - intros r c. rewrite H2. split.
    + intros [Hc Hlin]. by apply linear_row_col in Hlin; [|lia|].
    + intros Hrc. assert (c < 36)%nat by lia.
      split; [done|]. apply linear_row_col; (done || lia).
  - intros r c Hr Hc Hlt. rewrite Hcell by done. by rewrite decide_True.
  - intros r c Hr Hc Hge. rewrite Hcell by done.
    by rewrite !decide_False by lia.
Qed.

Lemma C1_lived_current_future_witness :
  ∃ g, returns (create_life_months_grid 90 30) [] g
       ∧ cell g 9 35 = Some 2 ∧ cell g 9 34 = Some 1 ∧ cell g 10 0 = Some 0.
Proof.
  destruct (C1_lived_current_future 90 30 []) as (g & Hret & _ & H2 & _ & H1 & H0);
    [lia | lia |].
  exists g. split; [done|]. split; [|split].
  - apply H2. split; reflexivity.
  - apply H1; unfold linear; simpl; lia.
  - apply H0; unfold linear; simpl; lia.
Defined.

(** C2: for 50 <= lifespan <= 120 and 0 <= age <= lifespan the call returns
    a rectangular grid of floor(lifespan/3) + 1 rows and 36 columns. *)
Theorem C2_grid_shape (life_span current_age : Z) (h : heap) :
  50 ≤ life_span ≤ 120 →
  0 ≤ current_age ≤ life_span →
  ∃ g, returns (create_life_months_grid life_span current_age) h g
       ∧ Z.of_nat (length g) = life_span / 3 + 1
       ∧ Forall (λ cells, length cells = 36%nat) g.
Proof.
  intros HL Ha.
  destruct (grid_value_valid life_span current_age HL Ha)
    as (g & Hg & Hlen & Hall).
  exists g. split; [by apply returns_grid_value|]. split; [lia|done].
Qed.

Lemma C2_grid_shape_witness :
  ∃ g, returns (create_life_months_grid 50 0) [] g
       ∧ Z.of_nat (length g) = 17
       ∧ Forall (λ cells, length cells = 36%nat) g.
Proof. apply (C2_grid_shape 50 0 []); lia. Defined.

(** C3 at lifespan 50, age 0: the call returns a grid whose last cell
    (row 16, column 35) holds status 2, so not every cell holds 0. *)
Theorem C3_newborn_grid_marks_last_cell :
  ∃ g, returns (create_life_months_grid 50 0) [] g
       ∧ cell g 16 35 = Some 2
       ∧ ¬ (∀ r c v, cell g r c = Some v → v = 0).
Proof.
  eexists. split; [|split].
  - eexists _, _. split; [by vm_compute|reflexivity].
  - reflexivity.
  - intros Hall. by specialize (Hall 16%nat 35%nat 2 eq_refl).
Qed.

(** C4, amended: for age 0 and 50 <= lifespan <= 120 the current row -1
    and the current column 35 are indices of the grid (row -1 is its last
    row), so the call raises no index fault and returns a grid of
    floor(lifespan/3) + 1 rows and 36 columns. *)
Theorem C4_newborn_no_index_fault (life_span : Z) (h : heap) :
  50 ≤ life_span ≤ 120 →
  (0 * 12 - 1) / 36 = -1
  ∧ (0 * 12 - 1) mod 36 = 35
  ∧ norm_index (Z.to_nat (life_span / 3 + 1)) (-1) = Some (Z.to_nat (life_span / 3))
  ∧ norm_index 36 35 = Some 35%nat
  ∧ create_life_months_grid life_span 0 h ≠ inl IndexError
  ∧ ∃ g, returns (create_life_months_grid life_span 0) h g
         ∧ has_shape g (Z.to_nat (life_span / 3 + 1)) 36.
Proof.
  intros HL.
  destruct (grid_value_unborn life_span 0) as (g & Hg & Hsh & _); [lia | lia |].
  split; [done|]. split; [done|]. split; [|split; [done|split]].
  - rewrite norm_index_neg by lia. f_equal. lia.
  - by rewrite create_life_months_grid_run, Hg.
  - exists g. split; [by apply returns_grid_value|done].
Qed.

Lemma C4_newborn_no_index_fault_witness :
  create_life_months_grid 50 0 [] ≠ inl IndexError.
Proof. apply (C4_newborn_no_index_fault 50 []). lia. Defined.

(** C4 as stated fails: at lifespan 50, age 0 the call does not raise; it
    returns a grid. *)
Lemma C4_counterexample :
  ¬ (create_life_months_grid 50 0 [] = inl IndexError)
  ∧ ∃ g, returns (create_life_months_grid 50 0) [] g.
Proof.
  split; [done|].
  eexists. eexists _, _. split; [by vm_compute|reflexivity].
Qed.

(** C9: for 50 <= lifespan <= 120 and age 0 the call raises nothing: with
    (-1) div 36 = -1, (-1) mod 36 = 35 and row -1 naming the last row, it
    returns a grid whose cell at row floor(lifespan/3), column 35 holds
    status 2 while every other cell holds 0. *)
Theorem C9_newborn_grid (life_span : Z) (h : heap) :
  50 ≤ life_span ≤ 120 →
  (-1) / 36 = -1
  ∧ (-1) mod 36 = 35
  ∧ norm_index (Z.to_nat (life_span / 3 + 1)) (-1) = Some (Z.to_nat (life_span / 3))
  ∧ ∃ g, returns (create_life_months_grid life_span 0) h g
         ∧ has_shape g (Z.to_nat (life_span / 3 + 1)) 36
         ∧ cell g (Z.to_nat (life_span / 3)) 35 = Some 2
         ∧ ∀ r c, (r < Z.to_nat (life_span / 3 + 1))%nat → (c < 36)%nat →
             (r, c) ≠ (Z.to_nat (life_span / 3), 35%nat) → cell g r c = Some 0.
Proof.
  intros HL.
  destruct (grid_value_unborn life_span 0) as (g & Hg & Hsh & Hcell); [lia | lia |].
  split; [done|]. split; [done|]. split.
  { rewrite norm_index_neg by lia. f_equal. lia. }
  exists g. split; [by apply returns_grid_value|]. split; [done|]. split.
  - rewrite Hcell by lia. by rewrite decide_True by lia.
  - intros r c Hr Hc Hne. rewrite Hcell by done.
    rewrite decide_False; [done|].
    intros [Hr' Hc']. apply Hne. f_equal; lia.
Qed.

Lemma C9_newborn_grid_witness :
  ∃ g, returns (create_life_months_grid 50 0) [] g
       ∧ cell g 16 35 = Some 2 ∧ cell g 0 0 = Some 0.
Proof.
  destruct (C9_newborn_grid 50 []) as (_ & _ & _ & g & Hret & _ & H2 & H0); [lia|].
  exists g. split; [done|]. split; [exact H2|].
  apply H0; [simpl; lia | lia | discriminate].
Defined.



(** C6: for lifespan 120 and age 120 the metrics are 1440 months lived,
    1440 months in total and 100.0 percent; the grid has 41 rows of 36
    columns, its cell at linear index 1439 (row 39, column 35) holds status
    2 and every cell of a smaller linear index holds 1. *)
Theorem C6_scenario_120_120 (h : heap) :
  compute_metrics 120 120 = inr (Metrics 1440 1440 100%float)
  ∧ linear 39 35 = 1439
  ∧ ∃ g, returns (create_life_months_grid 120 120) h g
         ∧ length g = 41%nat
         ∧ Forall (λ cells, length cells = 36%nat) g
         ∧ cell g 39 35 = Some 2
         ∧ ∀ r c, (c < 36)%nat → linear r c < 1439 → cell g r c = Some 1.
Proof.
  split; [by vm_compute|]. split; [done|].
  destruct (grid_value_lived 120 120) as (g & Hg & [Hlen Hall] & Hcell); [lia|].
  change (Z.to_nat (120 / 3 + 1)) with 41%nat in *.
  change (120 * 12 - 1) with 1439 in Hcell.
  exists g. split; [by apply returns_grid_value|].
  split; [done|]. split; [done|]. split.
  - rewrite Hcell by lia. done.
  - intros r c Hc Hlt.
    rewrite Hcell by (unfold linear in Hlt; lia).
    by rewrite decide_True.
Qed.

(** C5: for 50 <= lifespan <= 120 and 0 <= age <= lifespan the metrics are
    monthsLived = age*12, monthsTotal = lifespan*12 and percentageLived =
    (monthsLived / monthsTotal) * 100 in binary64; when monthsTotal is 0
    the computation raises the division-by-zero error and returns no
    value. *)
Theorem C5_metrics (expected_lifespan current_age : Z) :
  (50 ≤ expected_lifespan ≤ 120 → 0 ≤ current_age ≤ expected_lifespan →
   ∃ m, compute_metrics expected_lifespan current_age = inr m
        ∧ months_lived m = current_age * 12
        ∧ months_total m = expected_lifespan * 12
        ∧ percentage_lived m =
          PrimFloat.mul
            (PrimFloat.div (float_of_int (months_lived m))
                           (float_of_int (months_total m)))
            100%float)
  ∧ (expected_lifespan * 12 = 0 →
     compute_metrics expected_lifespan current_age = inl ZeroDivisionError).
Proof.
  unfold compute_metrics, truediv. split.
  - intros HL Ha.
    destruct (Z.eqb_spec (expected_lifespan * 12) 0) as [H0|_]; [lia|].
    eexists. split; [reflexivity|]. simpl. done.
  - intros H0. by rewrite H0.
Qed.

Lemma C5_metrics_witness :
  (∃ m, compute_metrics 90 30 = inr m
        ∧ months_lived m = 360 ∧ months_total m = 1080
        ∧ percentage_lived m =
          PrimFloat.mul
            (PrimFloat.div (float_of_int (months_lived m))
                           (float_of_int (months_total m)))
            100%float)
  ∧ compute_metrics 0 0 = inl ZeroDivisionError.
Proof.
  split.
  - apply (proj1 (C5_metrics 90 30)); lia.
  - apply (proj2 (C5_metrics 0 0)); lia.
Defined.

(** A write through one reference leaves every other array as it was. *)
Lemma np_setitem_frame (l l' : loc) (row col v : Z) (h h' : heap) :
  l ≠ l' → np_setitem l row col v h = inr (tt, h') → h' !! l' = h !! l'.
Proof.
  intros Hne. unfold np_setitem. rewrite !bind_run. unfold deref, lift, store.
  destruct (setitem (h !!! l) row col v) as [e|a']; [done|].
  intros [= <-]. by apply list_lookup_insert_ne.
Qed.

(** C7: for 50 <= lifespan <= 120 and 0 <= age <= lifespan two calls with
    the same arguments return two distinct arrays of the same value, cell
    by cell, and a later write into either leaves the other unchanged. *)
Theorem C7_same_value_no_sharing (life_span current_age : Z) (h : heap) :
  50 ≤ life_span ≤ 120 →
  0 ≤ current_age ≤ life_span →
  ∃ l1 h1 l2 h2 g,
    create_life_months_grid life_span current_age h = inr (l1, h1)
    ∧ create_life_months_grid life_span current_age h1 = inr (l2, h2)
    ∧ h1 !! l1 = Some g
    ∧ h2 !! l1 = Some g
    ∧ h2 !! l2 = Some g
    ∧ (∀ r c, cell (h2 !!! l1) r c = cell (h2 !!! l2) r c)
    ∧ l1 ≠ l2
    ∧ (∀ row col v h3, np_setitem l1 row col v h2 = inr (tt, h3) →
                       h3 !! l2 = Some g)
    ∧ (∀ row col v h3, np_setitem l2 row col v h2 = inr (tt, h3) →
                       h3 !! l1 = Some g).
Proof.
  intros HL Ha.
  destruct (grid_value_valid life_span current_age HL Ha) as (g & Hg & _).
  exists (length h), (h ++ [g]), (length (h ++ [g])), ((h ++ [g]) ++ [g]), g.
  rewrite !create_life_months_grid_run, Hg.
  assert ((h ++ [g]) !! length h = Some g) as H1
    by (rewrite lookup_app_r by lia; by rewrite Nat.sub_diag).
  assert (((h ++ [g]) ++ [g]) !! length h = Some g) as H21
    by (rewrite lookup_app_l by (rewrite length_app; simpl; lia); done).
  assert (((h ++ [g]) ++ [g]) !! length (h ++ [g]) = Some g) as H22
    by (rewrite lookup_app_r by lia; by rewrite Nat.sub_diag).
  assert (length h ≠ length (h ++ [g])) as Hne
    by (rewrite length_app; simpl; lia).
  repeat (split; [done|]).
  split; [|split; [done|split]].
  - intros r c.
    by rewrite (list_lookup_total_correct _ _ _ H21),
               (list_lookup_total_correct _ _ _ H22).
  - intros row col v h3 Hw. by rewrite (np_setitem_frame _ _ _ _ _ _ _ Hne Hw).
  - intros row col v h3 Hw.
    by rewrite (np_setitem_frame _ _ _ _ _ _ _ (not_eq_sym Hne) Hw).
Qed.

Lemma C7_same_value_no_sharing_witness :
  ∃ l1 h1 l2 h2,
    create_life_months_grid 90 30 [] = inr (l1, h1)
    ∧ create_life_months_grid 90 30 h1 = inr (l2, h2)
    ∧ l1 ≠ l2
    ∧ h2 !! l1 = h2 !! l2.
Proof.
  destruct (C7_same_value_no_sharing 90 30 [])
    as (l1 & h1 & l2 & h2 & g & Hc1 & Hc2 & _ & Hg1 & Hg2 & _ & Hne & _);
    [lia | lia |].
  exists l1, h1, l2, h2.
  split; [exact Hc1|]. split; [exact Hc2|]. split; [exact Hne|].
  exact (eq_trans Hg1 (eq_sym Hg2)).
Defined.

(** C8, amended: the code validates nothing and has no InvalidParameter
    error.  On inputs outside the bounds, of magnitude at most 100000, with
    rows = lifespan div 3 + 1 and n = age*12, the grid building raises
    ValueError when rows < 0, raises IndexError when rows >= 0 and either
    n > 36*rows or (n-1) div 36 < -rows, and returns a grid otherwise; the
    metrics computation raises ZeroDivisionError when lifespan = 0 and
    returns monthsLived = age*12 and monthsTotal = lifespan*12 with the
    percentage otherwise. *)
Theorem C8_unvalidated_inputs (life_span current_age : Z) (h : heap) :
  life_span < 1 ∨ current_age < 0 ∨ current_age > life_span →
  -100000 ≤ life_span ≤ 100000 →
  -100000 ≤ current_age ≤ 100000 →
  (life_span / 3 + 1 < 0 →
   create_life_months_grid life_span current_age h = inl ValueError)
  ∧ (0 ≤ life_span / 3 + 1 →
     36 * (life_span / 3 + 1) < current_age * 12
     ∨ (current_age * 12 - 1) / 36 < - (life_span / 3 + 1) →
     create_life_months_grid life_span current_age h = inl IndexError)
  ∧ (0 ≤ life_span / 3 + 1 →
     current_age * 12 ≤ 36 * (life_span / 3 + 1) →
     - (life_span / 3 + 1) ≤ (current_age * 12 - 1) / 36 →
     ∃ g, returns (create_life_months_grid life_span current_age) h g)
  ∧ (life_span = 0 →
     compute_metrics life_span current_age = inl ZeroDivisionError)
  ∧ (life_span ≠ 0 →
     ∃ m, compute_metrics life_span current_age = inr m
          ∧ months_lived m = current_age * 12
          ∧ months_total m = life_span * 12
          ∧ percentage_lived m =
            PrimFloat.mul
              (PrimFloat.div (float_of_int (current_age * 12))
                             (float_of_int (life_span * 12)))
              100%float).
Proof.
  intros _ _ _. split; [|split; [|split; [|split]]].
  - intros Hrows. by apply raises_grid_value, grid_value_negative_rows.
  - intros Hrows Hout. apply raises_grid_value.
    destruct (decide (36 * (life_span / 3 + 1) < current_age * 12)).
    + by apply grid_value_too_old.
    + apply grid_value_too_young; lia.
  - intros Hrows Hfit Hrow.
    destruct (decide (current_age * 12 ≤ 0)).
    + destruct (grid_value_unborn life_span current_age) as (g & Hg & _);
        [done | done |].
      exists g. by apply returns_grid_value.
    + destruct (grid_value_lived life_span current_age) as (g & Hg & _); [lia|].
      exists g. by apply returns_grid_value.
  - intros ->. reflexivity.
  - intros Hne. unfold compute_metrics, truediv.
    destruct (Z.eqb_spec (life_span * 12) 0) as [H0|_]; [lia|].
    eexists. split; [reflexivity|]. done.
Qed.

Lemma C8_unvalidated_inputs_witness :
  (∃ g, returns (create_life_months_grid 0 0) [] g)
  ∧ compute_metrics 0 0 = inl ZeroDivisionError
  ∧ create_life_months_grid 3 7 [] = inl IndexError.
Proof.
  split; [|split].
  - apply (C8_unvalidated_inputs 0 0 []); [lia | lia | lia | done | done | done].
  - apply (C8_unvalidated_inputs 0 0 []); [lia | lia | lia | done].
  - apply (C8_unvalidated_inputs 3 7 []); [lia | lia | lia | done | by left].
Defined.

(** C8 as stated fails: lifespan 60 with age -1 is outside the bounds, yet
    the grid building returns a grid and the metrics computation returns a
    value. *)
Lemma C8_counterexample :
  (60 < 1 ∨ -1 < 0 ∨ -1 > 60)
  ∧ (∃ g, returns (create_life_months_grid 60 (-1)) [] g)
  ∧ (∃ m, compute_metrics 60 (-1) = inr m).
Proof.
  split; [lia|]. split.
  - eexists. eexists _, _. split; [by vm_compute|reflexivity].
  - eexists. by vm_compute.
Qed.

(** * Further properties of the code *)

(** ** The grid, cell after cell *)

(** In a grid of 36 columns the cells in row-major order are the cells
    by linear index. *)
Lemma lookup_concat_cell (g : ndarray) (rows r c : nat) :
  has_shape g rows 36 → (c < 36)%nat →
  concat g !! (36 * r + c)%nat = cell g r c.
Proof.
  revert rows r. induction g as [|row g IH]; intros rows r [Hlen Hall] Hc.
  - by destruct r.
  - apply Forall_cons in Hall as [Hrow Hall].
    change (concat (row :: g)) with (row ++ concat g).
    destruct r as [|r].
    + replace (36 * 0 + c)%nat with c by lia.
      by rewrite lookup_app_l by lia.
    + rewrite lookup_app_r by lia.
      replace (36 * S r + c - length row)%nat with (36 * r + c)%nat by lia.
      by apply (IH (length g)).
Qed.

Lemma length_concat_shape (g : ndarray) (rows : nat) :
  has_shape g rows 36 → length (concat g) = (36 * rows)%nat.
Proof.
  revert rows. induction g as [|row g IH]; intros rows [Hlen Hall].
  - simpl in *. lia.
  - apply Forall_cons in Hall as [Hrow Hall].
    change (concat (row :: g)) with (row ++ concat g).
    rewrite length_app, Hrow, (IH (length g)) by done.
    rewrite <- Hlen. change (length (row :: g)) with (S (length g)). lia.
Qed.

(** A grid of 36 columns is known by its cells. *)
Lemma concat_by_cells (g : ndarray) (rows : nat) (cells : list Z) :
  has_shape g rows 36 →
  length cells = (36 * rows)%nat →
  (∀ r c, (r < rows)%nat → (c < 36)%nat →
          cell g r c = cells !! (36 * r + c)%nat) →
  concat g = cells.
Proof.
  intros Hsh Hlen Hcells. apply list_eq. intros i.
  destruct (decide (i < 36 * rows)%nat) as [Hi|Hi].
  - pose proof (Nat.div_mod_eq i 36) as Hdm.
    pose proof (Nat.mod_upper_bound i 36 ltac:(lia)) as Hmod.
    assert (i / 36 < rows)%nat as Hdiv by (apply Nat.Div0.div_lt_upper_bound; lia).
    replace i with (36 * (i / 36) + i mod 36)%nat by done.
    rewrite (lookup_concat_cell g rows) by done.
    by apply Hcells.
  - rewrite !lookup_ge_None_2; [done|lia|].
    rewrite (length_concat_shape g rows) by done. lia.
Qed.

(** The cells of a grid with lived months, in order. *)
Lemma grid_value_lived_cells (life_span current_age : Z) :
  1 ≤ current_age * 12 ≤ 36 * (life_span / 3 + 1) →
  ∃ g, grid_value life_span current_age = inr g
       ∧ has_shape g (Z.to_nat (life_span / 3 + 1)) 36
       ∧ concat g =
         replicate (Z.to_nat (current_age * 12 - 1)) 1 ++ [2] ++
         replicate (Z.to_nat (36 * (life_span / 3 + 1) - current_age * 12)) 0.
Proof.
  intros Hn.
  destruct (grid_value_lived life_span current_age Hn) as (g & Hg & Hsh & Hcell).
  exists g. split; [done|]. split; [done|].
  set (rows := life_span / 3 + 1) in *. set (n := current_age * 12) in *.
  apply (concat_by_cells g (Z.to_nat rows)); [done| |].
  - rewrite !length_app, !length_replicate. simpl. lia.
  - intros r c Hr Hc. rewrite Hcell by done. unfold linear.
    destruct (decide (36 * r + c < Z.to_nat (n - 1))%nat) as [Hlt|Hge].
    + rewrite lookup_app_l by (rewrite length_replicate; lia).
      rewrite lookup_replicate_2 by done. by rewrite decide_True by lia.
    + rewrite lookup_app_r by (rewrite length_replicate; lia).
      rewrite length_replicate. rewrite decide_False by lia.
      destruct (decide (36 * r + c = Z.to_nat (n - 1))%nat) as [Heq|Hne].
      * rewrite Heq, Nat.sub_diag. simpl. by rewrite decide_True by lia.
      * rewrite decide_False by lia.
        replace (36 * r + c - Z.to_nat (n - 1))%nat
          with (S (36 * r + c - Z.to_nat (n - 1) - 1))%nat by lia.
        simpl. by rewrite lookup_replicate_2 by lia.
Qed.

(** The cells of a grid without a lived month, in order: the mark is
    counted from the end. *)
Lemma grid_value_unborn_cells (life_span current_age : Z) :
  current_age * 12 ≤ 0 →
  0 ≤ 36 * (life_span / 3 + 1) + current_age * 12 - 1 →
  ∃ g, grid_value life_span current_age = inr g
       ∧ has_shape g (Z.to_nat (life_span / 3 + 1)) 36
       ∧ concat g =
         replicate (Z.to_nat (36 * (life_span / 3 + 1) + current_age * 12 - 1)) 0
         ++ [2] ++ replicate (Z.to_nat (- (current_age * 12))) 0.
Proof.
  intros Hn Hfit.
  destruct (grid_value_unborn life_span current_age Hn) as (g & Hg & Hsh & Hcell);
    [lia|].
  exists g. split; [done|]. split; [done|].
  set (rows := life_span / 3 + 1) in *. set (n := current_age * 12) in *.
  apply (concat_by_cells g (Z.to_nat rows)); [done| |].
  - rewrite !length_app, !length_replicate. simpl. lia.
  - intros r c Hr Hc. rewrite Hcell by done.
    destruct (decide (36 * r + c < Z.to_nat (36 * rows + n - 1))%nat) as [Hlt|Hge].
    + rewrite lookup_app_l by (rewrite length_replicate; lia).
      rewrite lookup_replicate_2 by done. by rewrite decide_False by lia.
    + rewrite lookup_app_r by (rewrite length_replicate; lia).
      rewrite length_replicate.
      destruct (decide (36 * r + c = Z.to_nat (36 * rows + n - 1))%nat) as [Heq|Hne].
      * rewrite Heq, Nat.sub_diag. simpl. by rewrite decide_True by lia.
      * rewrite decide_False by lia.
        replace (36 * r + c - Z.to_nat (36 * rows + n - 1))%nat
          with (S (36 * r + c - Z.to_nat (36 * rows + n - 1) - 1))%nat by lia.
        simpl. by rewrite lookup_replicate_2 by lia.
Qed.

Lemma count_replicate (v x : Z) (n : nat) :
  length (filter (eq v) (replicate n x)) = if decide (v = x) then n else 0%nat.
Proof.
  destruct (decide (v = x)) as [->|Hne].
  - induction n as [|n IH]; [done|].
    change (replicate (S n) x) with (x :: replicate n x).
    rewrite filter_cons_True by done. simpl. by rewrite IH.
  - induction n as [|n IH]; [done|].
    change (replicate (S n) x) with (x :: replicate n x).
    by rewrite filter_cons_False.
Qed.

Lemma count_marked (v : Z) (n k : nat) (x : Z) :
  length (filter (eq v) (replicate n x ++ [2] ++ replicate k 0)) =
  ((if decide (v = x) then n else 0) + (if decide (v = 2%Z) then 1 else 0)
   + (if decide (v = 0%Z) then k else 0))%nat.
Proof.
  rewrite !filter_app, !length_app, !count_replicate.
  destruct (decide (v = 2)) as [->|Hne].
  - rewrite filter_cons_True by done. simpl. lia.
  - rewrite filter_cons_False by done. simpl. lia.
Qed.





(** X3: a call that returns has allocated exactly one array, at the end of
    the store, and changed none of the arrays that were there. *)
Theorem X3_call_allocates_one_array
    (life_span current_age : Z) (h h' : heap) (l : loc) :
  create_life_months_grid life_span current_age h = inr (l, h') →
  l = length h
  ∧ (∃ g, h' = h ++ [g])
  ∧ ∀ l0, (l0 < length h)%nat → h' !! l0 = h !! l0.
Proof.
  rewrite create_life_months_grid_run.
  destruct (grid_value life_span current_age) as [e|g]; [done|].
  intros [= <- <-]. split; [done|]. split; [by exists g|].
  intros l0 Hl0. by apply lookup_app_l.
Qed.

Lemma X3_call_allocates_one_array_witness :
  match create_life_months_grid 3 1 [ [ [7] ] ] with
  | inr (l, h') => l = 1%nat ∧ h' !! 0%nat = Some [ [7] ]
  | inl _ => False
  end.
Proof.
  destruct (create_life_months_grid 3 1 [ [ [7] ] ]) as [e|[l h']] eqn:E.
  - vm_compute in E. discriminate E.
  - destruct (X3_call_allocates_one_array 3 1 _ _ _ E) as (Hl & _ & Hframe).
    split; [exact Hl|]. apply (Hframe 0%nat). simpl. lia.
Defined.

(** X4: for a lifespan from 0 to 100000 and an age from 1 to 100000 the
    call returns a grid exactly when the age is at most 3*(lifespan div 3)
    + 3, up to three years past the lifespan; beyond that it raises
    IndexError. *)
Theorem X4_age_past_the_lifespan (life_span current_age : Z) (h : heap) :
  0 ≤ life_span ≤ 100000 →
  1 ≤ current_age ≤ 100000 →
  ((∃ g, returns (create_life_months_grid life_span current_age) h g)
   ↔ current_age ≤ 3 * (life_span / 3) + 3)
  ∧ (3 * (life_span / 3) + 3 < current_age →
     create_life_months_grid life_span current_age h = inl IndexError).
Proof.
  intros HL Ha.
  assert (3 * (life_span / 3) + 3 < current_age →
          create_life_months_grid life_span current_age h = inl IndexError)
    as Hraise.
  { intros Hold. apply raises_grid_value, grid_value_too_old; lia. }
  split; [split|done].
  - intros (g & l & h' & Hrun & _).
    destruct (decide (current_age ≤ 3 * (life_span / 3) + 3)) as [|Hold]; [done|].
    rewrite Hraise in Hrun by lia. done.
  - intros Hfit.
    destruct (grid_value_lived life_span current_age) as (g & Hg & _); [lia|].
    exists g. by apply returns_grid_value.
Qed.

Lemma X4_age_past_the_lifespan_witness :
  (∃ g, returns (create_life_months_grid 4 6) [] g)
  ∧ create_life_months_grid 4 7 [] = inl IndexError.
Proof.
  split.
  - apply (X4_age_past_the_lifespan 4 6 []); lia.
  - apply (X4_age_past_the_lifespan 4 7 []); lia.
Defined.

(** X5: for a lifespan of at most 100000 and an age of 0 or less whose
    mark still falls in the grid (36*rows + age*12 - 1 >= 0) the call
    returns a grid with no status 1 and a single status 2, counted from
    the end of the grid: it is followed by -age*12 zeros; for age 0 it is
    the last cell. *)
Theorem X5_mark_counted_from_the_end (life_span current_age : Z) (h : heap) :
  life_span ≤ 100000 →
  current_age ≤ 0 →
  0 ≤ 36 * (life_span / 3 + 1) + current_age * 12 - 1 →
  ∃ g, returns (create_life_months_grid life_span current_age) h g
       ∧ concat g =
         replicate (Z.to_nat (36 * (life_span / 3 + 1) + current_age * 12 - 1)) 0
         ++ [2] ++ replicate (Z.to_nat (- (current_age * 12))) 0
       ∧ length (filter (eq 1) (concat g)) = 0%nat
       ∧ length (filter (eq 2) (concat g)) = 1%nat.
Proof.
  intros _ Ha Hfit.
  destruct (grid_value_unborn_cells life_span current_age)
    as (g & Hg & _ & Hcells); [lia | lia |].
  exists g. split; [by apply returns_grid_value|]. split; [done|].
  rewrite Hcells, !count_marked.
  repeat case_decide; try done; lia.
Qed.

Lemma X5_mark_counted_from_the_end_witness :
  ∃ g, returns (create_life_months_grid 60 (-1)) [] g
       ∧ concat g = replicate 743 0 ++ [2] ++ replicate 12 0.
Proof.
  destruct (X5_mark_counted_from_the_end 60 (-1) []) as (g & Hret & Hcells & _);
    [lia | lia | lia |].
  exists g. split; [exact Hret|exact Hcells].
Defined.

(** ** Rendering *)

Local Arguments cell_div : simpl never.
Local Arguments grid_open : simpl never.
Local Opaque cell_div grid_open.

Lemma append_assoc (s1 s2 s3 : string) :
  (s1 +:+ s2) +:+ s3 = s1 +:+ (s2 +:+ s3).
Proof.
  induction s1 as [|a s1 IH]; [done|].
  change (String a ((s1 +:+ s2) +:+ s3) = String a (s1 +:+ (s2 +:+ s3))).
  by rewrite IH.
Qed.

Lemma append_empty_r (s : string) : s +:+ "" = s.
Proof.
  induction s as [|a s IH]; [done|].
  change (String a (s +:+ "") = String a s). by rewrite IH.
Qed.

Lemma divs_app (k1 k2 : list string) : divs (k1 ++ k2) = divs k1 +:+ divs k2.
Proof.
  induction k1 as [|color k1 IH]; simpl; [done|].
  by rewrite IH, append_assoc.
Qed.

(** The dict has the three statuses and nothing else. *)
Lemma color_map_lookup (v : Z) :
  color_map !! v =
  if decide (v = 0) then Some "lightgray"%string
  else if decide (v = 1) then Some "blue"%string
  else if decide (v = 2) then Some "red"%string
  else None.
Proof.
  unfold color_map. repeat case_decide; subst; try done.
  by rewrite !lookup_insert_ne, lookup_singleton_ne by done.
Qed.

Lemma color_map_None (v : Z) :
  color_map !! v = None ↔ v ≠ 0 ∧ v ≠ 1 ∧ v ≠ 2.
Proof.
  rewrite color_map_lookup.
  repeat case_decide; (split; [intros ?|intros (? & ? & ?)]); done.
Qed.

Lemma render_cells_ok (acc : string) (row : list Z) (colors : list string) :
  Forall2 (λ v color, color_map !! v = Some color) row colors →
  render_cells acc row = inr (acc +:+ divs colors).
Proof.
  intros H. revert acc. induction H as [|v color row colors Hv _ IH]; intros acc.
  - simpl. by rewrite append_empty_r.
  - simpl. by rewrite Hv, IH, append_assoc.
Qed.

Lemma render_cells_raises (acc : string) (row : list Z) (e : raised) :
  render_cells acc row = inl e →
  e = KeyError ∧ Exists (λ v, color_map !! v = None) row.
Proof.
  revert acc. induction row as [|v row IH]; intros acc; simpl; [done|].
  destruct (color_map !! v) as [color|] eqn:Hv.
  - intros H. destruct (IH _ H) as [-> Hex]. split; [done|]. by apply Exists_cons_tl.
  - intros [= <-]. split; [done|]. by apply Exists_cons_hd.
Qed.

Lemma render_cells_returns (acc : string) (row : list Z) (html : string) :
  render_cells acc row = inr html →
  ∃ colors, Forall2 (λ v color, color_map !! v = Some color) row colors
            ∧ html = acc +:+ divs colors.
Proof.
  revert acc. induction row as [|v row IH]; intros acc; simpl.
  - intros [= <-]. exists []. split; [constructor|]. by rewrite append_empty_r.
  - destruct (color_map !! v) as [color|] eqn:Hv; [|done].
    intros H. destruct (IH _ H) as (colors & Hall & ->).
    exists (color :: colors). split; [by constructor|].
    simpl. by rewrite append_assoc.
Qed.

Lemma render_rows_returns (acc : string) (g : ndarray) (html : string) :
  render_rows acc g = inr html →
  ∃ colors, Forall2 (λ v color, color_map !! v = Some color) (concat g) colors
            ∧ html = acc +:+ divs colors.
Proof.
  revert acc. induction g as [|row g IH]; intros acc; simpl.
  - intros [= <-]. exists []. split; [constructor|]. by rewrite append_empty_r.
  - destruct (render_cells acc row) as [e|html1] eqn:Hrow; [done|].
    apply render_cells_returns in Hrow as (k1 & Hk1 & ->).
    intros H. destruct (IH _ H) as (k2 & Hk2 & ->).
    exists (k1 ++ k2). split; [by apply Forall2_app|].
    by rewrite divs_app, append_assoc.
Qed.

Lemma render_rows_raises (acc : string) (g : ndarray) (e : raised) :
  render_rows acc g = inl e →
  e = KeyError ∧ Exists (λ v, color_map !! v = None) (concat g).
Proof.
  revert acc. induction g as [|row g IH]; intros acc; simpl; [done|].
  destruct (render_cells acc row) as [e1|html1] eqn:Hrow.
  - intros [= <-]. apply render_cells_raises in Hrow as [-> Hex].
    split; [done|]. apply Exists_app. by left.
  - intros H. destruct (IH _ H) as [-> Hex].
    split; [done|]. apply Exists_app. by right.
Qed.

Lemma render_life_months_returns (g : ndarray) (html : string) :
  render_life_months g = inr html ↔
  ∃ colors, Forall2 (λ v color, color_map !! v = Some color) (concat g) colors
            ∧ html = grid_open +:+ divs colors +:+ "</div>".
Proof.
  unfold render_life_months. split.
  - destruct (render_rows grid_open g) as [e|html1] eqn:Hrows; [done|].
    intros [= <-]. apply render_rows_returns in Hrows as (colors & Hall & ->).
    exists colors. split; [done|]. by rewrite append_assoc.
  - intros (colors & Hall & ->).
    destruct (render_rows grid_open g) as [e|html1] eqn:Hrows.
    + apply render_rows_raises in Hrows as [_ Hex].
      apply Exists_exists in Hex as (v & Hv & Hnone).
      apply list_elem_of_lookup in Hv as [i Hi].
      destruct (Forall2_lookup_l _ _ _ _ _ Hall Hi) as (color & _ & Hcolor).
      congruence.
    + apply render_rows_returns in Hrows as (colors' & Hall' & ->).
      assert (colors' = colors) as ->; [|by rewrite append_assoc].
      clear -Hall Hall'. revert colors' Hall'.
      induction Hall as [|v color l k Hv _ IH]; intros colors' Hall'.
      * by apply Forall2_nil_inv_l in Hall'.
      * apply Forall2_cons_inv_l in Hall' as (color' & k' & Hv' & Hk' & ->).
        f_equal; [congruence|by apply IH].
Qed.


(** Cells of a known status have a colour each. *)
Lemma statuses_have_colors (cells : list Z) :
  Forall (λ v, v = 0 ∨ v = 1 ∨ v = 2) cells →
  ∃ colors, Forall2 (λ v color, color_map !! v = Some color) cells colors.
Proof.
  induction 1 as [|v cells Hv _ (colors & IH)].
  - exists []. constructor.
  - assert (is_Some (color_map !! v)) as [color Hcolor].
    { rewrite color_map_lookup. repeat case_decide; eauto. exfalso. lia. }
    exists (color :: colors). by constructor.
Qed.

(** Whatever grid the builder returns holds statuses 0, 1 and 2 only. *)
Lemma grid_value_statuses (life_span current_age : Z) (g : ndarray) :
  grid_value life_span current_age = inr g →
  Forall (λ v, v = 0 ∨ v = 1 ∨ v = 2) (concat g).
Proof.
  intros Hg.
  assert (∀ n k (x : Z), (x = 0 ∨ x = 1) →
            Forall (λ v, v = 0 ∨ v = 1 ∨ v = 2)
                   (replicate n x ++ [2] ++ replicate k 0)) as Hmarked.
  { intros n k x Hx. apply Forall_app. split; [apply Forall_replicate; lia|].
    apply Forall_cons. split; [lia|]. apply Forall_replicate. lia. }
  destruct (decide (life_span / 3 + 1 < 0)) as [Hneg|Hrows].
  { by rewrite grid_value_negative_rows in Hg. }
  destruct (decide (current_age * 12 ≤ 0)) as [Hunborn|Hlived].
  - destruct (decide (0 ≤ 36 * (life_span / 3 + 1) + current_age * 12 - 1))
      as [Hfit|Hout].
    + destruct (grid_value_unborn_cells life_span current_age)
        as (g' & Hg' & _ & Hcells); [done | done |].
      assert (g' = g) as -> by congruence.
      rewrite Hcells. apply Hmarked. by left.
    + rewrite grid_value_too_young in Hg by lia. done.
  - destruct (decide (current_age * 12 ≤ 36 * (life_span / 3 + 1))) as [Hfit|Hout].
    + destruct (grid_value_lived_cells life_span current_age)
        as (g' & Hg' & _ & Hcells); [lia|].
      assert (g' = g) as -> by congruence.
      rewrite Hcells. apply Hmarked. by right.
    + rewrite grid_value_too_old in Hg by lia. done.
Qed.

(** X6: rendering raises nothing but KeyError, and raises it exactly when
    some cell of the grid is none of 0, 1 and 2. *)
Theorem X6_render_key_error (grid : ndarray) :
  (∀ e, render_life_months grid = inl e → e = KeyError)
  ∧ (render_life_months grid = inl KeyError ↔
     ∃ v, v ∈ concat grid ∧ v ≠ 0 ∧ v ≠ 1 ∧ v ≠ 2).
Proof.
  assert (∀ e, render_life_months grid = inl e →
               e = KeyError ∧ ∃ v, v ∈ concat grid ∧ v ≠ 0 ∧ v ≠ 1 ∧ v ≠ 2)
    as Hraise.
  { intros e. unfold render_life_months.
    destruct (render_rows grid_open grid) as [e'|html] eqn:Hrows; [|done].
    intros [= <-]. apply render_rows_raises in Hrows as [-> Hex].
    split; [done|]. apply Exists_exists in Hex as (v & Hv & Hnone).
    exists v. split; [done|]. by apply color_map_None. }
  split; [intros e He; by apply Hraise|]. split.
  - intros He. by apply Hraise in He as [_ Hex].
  - intros (v & Hv & Hne).
    destruct (render_life_months grid) as [e|html] eqn:Hrender.
    + by destruct (Hraise e eq_refl) as [-> _].
    + apply render_life_months_returns in Hrender as (colors & Hall & _).
      apply list_elem_of_lookup in Hv as [i Hi].
      destruct (Forall2_lookup_l _ _ _ _ _ Hall Hi) as (color & _ & Hcolor).
      apply color_map_None in Hne. congruence.
Qed.

(** X7: on a grid whose cells are all 0, 1 or 2 rendering returns the
    opening tag, then one div per cell in row-major order, each of the
    colour the dict gives the cell's status, then the closing tag. *)
Theorem X7_render_one_div_per_cell (grid : ndarray) :
  Forall (λ v, v = 0 ∨ v = 1 ∨ v = 2) (concat grid) →
  ∃ colors,
    length colors = length (concat grid)
    ∧ Forall2 (λ v color, color_map !! v = Some color) (concat grid) colors
    ∧ render_life_months grid = inr (grid_open +:+ divs colors +:+ "</div>").
Proof.
  intros Hall. destruct (statuses_have_colors _ Hall) as (colors & Hcolors).
  exists colors. split; [by rewrite (Forall2_length _ _ _ Hcolors)|].
  split; [done|]. apply render_life_months_returns. eauto.
Qed.

Lemma X7_render_one_div_per_cell_witness :
  ∃ colors,
    length colors = 3%nat
    ∧ render_life_months [ [0; 1]; [2] ] =
      inr (grid_open +:+ divs colors +:+ "</div>").
Proof.
  destruct (X7_render_one_div_per_cell [ [0; 1]; [2] ])
    as (colors & Hlen & _ & Hrender).
  - repeat constructor; lia.
  - exists colors. split; [exact Hlen|exact Hrender].
Defined.

(** X8: every grid the builder returns renders: its cells are 0, 1 or 2,
    whatever the arguments were, so the lookup of the colour never raises
    KeyError. *)
Theorem X8_built_grid_renders
    (life_span current_age : Z) (h h' : heap) (l : loc) :
  create_life_months_grid life_span current_age h = inr (l, h') →
  Forall (λ v, v = 0 ∨ v = 1 ∨ v = 2) (concat (h' !!! l))
  ∧ ∃ html, render_life_months (h' !!! l) = inr html.
Proof.
  rewrite create_life_months_grid_run.
  destruct (grid_value life_span current_age) as [e|g] eqn:Hg; [done|].
  intros [= <- <-].
  assert ((h ++ [g]) !!! length h = g) as ->.
  { apply list_lookup_total_correct.
    rewrite lookup_app_r by lia. by rewrite Nat.sub_diag. }
  pose proof (grid_value_statuses _ _ _ Hg) as Hall.
  split; [done|].
  destruct (statuses_have_colors _ Hall) as (colors & Hcolors).
  eexists. apply render_life_months_returns. eauto.
Qed.

Lemma X8_built_grid_renders_witness :
  match create_life_months_grid 3 1 [] with
  | inr (l, h') => ∃ html, render_life_months (h' !!! l) = inr html
  | inl _ => False
  end.
Proof.
  destruct (create_life_months_grid 3 1 []) as [e|[l h']] eqn:E.
  - vm_compute in E. discriminate E.
  - exact (proj2 (X8_built_grid_renders 3 1 _ _ _ E)).
Defined.



(** ** The metrics and [main] on the sliders' values *)

Lemma elem_of_range (n m : Z) : 0 ≤ m < n → m ∈ range n.
Proof.
  intros Hm. unfold range. apply list_elem_of_fmap.
  exists (Z.to_nat m). split; [lia|]. apply elem_of_seq. lia.
Qed.

Lemma slider_pairs_complete (expected_lifespan current_age : Z) :
  slider_values expected_lifespan current_age →
  (expected_lifespan, current_age) ∈ slider_pairs.
Proof.
  intros [HL Ha]. unfold slider_pairs. apply list_elem_of_bind.
  exists expected_lifespan. split.
  - apply list_elem_of_fmap. exists current_age.
    split; [done|]. apply elem_of_range. lia.
  - apply list_elem_of_fmap. exists (expected_lifespan - 50).
    split; [lia|]. apply elem_of_range. lia.
Qed.

(** A check that holds on the list holds for every slider setting. *)
Lemma check_sliders (P : Z → Z → bool) :
  forallb (λ p, P p.1 p.2) slider_pairs = true →
  ∀ expected_lifespan current_age,
    slider_values expected_lifespan current_age →
    P expected_lifespan current_age = true.
Proof.
  intros Hall L a Hs.
  apply slider_pairs_complete, list_elem_of_In in Hs.
  exact (proj1 (forallb_forall _ _) Hall (L, a) Hs).
Qed.

Lemma compute_metrics_nonzero (expected_lifespan current_age : Z) :
  expected_lifespan ≠ 0 →
  compute_metrics expected_lifespan current_age =
  inr (Metrics (current_age * 12) (expected_lifespan * 12)
         (PrimFloat.mul
            (PrimFloat.div (float_of_int (current_age * 12))
                           (float_of_int (expected_lifespan * 12)))
            100%float)).
Proof.
  intros Hne. unfold compute_metrics, truediv.
  by destruct (Z.eqb_spec (expected_lifespan * 12) 0) as [H0|_]; [lia|].
Qed.

(** X10: for every slider setting the percentage is a float between 0.0
    and 100.0; it is 100.0 exactly when the age is the lifespan and 0.0
    exactly when the age is 0. *)
Theorem X10_percentage_between_0_and_100 (expected_lifespan current_age : Z) :
  slider_values expected_lifespan current_age →
  ∃ m, compute_metrics expected_lifespan current_age = inr m
       ∧ PrimFloat.leb 0 (percentage_lived m) = true
       ∧ PrimFloat.leb (percentage_lived m) 100 = true
       ∧ (PrimFloat.eqb (percentage_lived m) 100 = true ↔
          current_age = expected_lifespan)
       ∧ (PrimFloat.eqb (percentage_lived m) 0 = true ↔ current_age = 0).
Proof.
  intros Hs.
  assert (percentage_in_range expected_lifespan current_age = true) as Hcheck.
  { revert expected_lifespan current_age Hs. apply check_sliders.
    vm_compute. reflexivity. }
  unfold percentage_in_range in Hcheck.
  destruct (compute_metrics expected_lifespan current_age) as [e|m]; [done|].
  exists m. split; [done|].
  apply andb_prop in Hcheck as [Hcheck H0].
  apply andb_prop in Hcheck as [Hcheck H100].
  apply andb_prop in Hcheck as [Hge Hle].
  apply Bool.eqb_prop in H0, H100.
  split; [done|]. split; [done|]. split.
  - rewrite H100. apply Z.eqb_eq.
  - rewrite H0. apply Z.eqb_eq.
Qed.

Lemma X10_percentage_between_0_and_100_witness :
  ∃ m, compute_metrics 90 30 = inr m
       ∧ PrimFloat.leb 0 (percentage_lived m) = true
       ∧ PrimFloat.leb (percentage_lived m) 100 = true.
Proof.
  destruct (X10_percentage_between_0_and_100 90 30) as (m & Hm & Hge & Hle & _).
  - unfold slider_values. lia.
  - exists m. split; [exact Hm|]. split; [exact Hge|exact Hle].
Defined.

(** X11: for every slider setting the percentage shown with two decimals
    is the exact percentage 100*age/lifespan rounded to hundredths, ties to
    even: the float arithmetic never moves the shown digits. *)
Theorem X11_shown_percentage_is_exact (expected_lifespan current_age : Z) :
  slider_values expected_lifespan current_age →
  ∃ m, compute_metrics expected_lifespan current_age = inr m
       ∧ format_2f (percentage_lived m) =
         hundredths_text (round_half_even (10000 * current_age) expected_lifespan)
       ∧ 0 ≤ round_half_even (10000 * current_age) expected_lifespan ≤ 10000.
Proof.
  intros Hs.
  assert (percentage_text_exact expected_lifespan current_age = true) as Hcheck.
  { revert expected_lifespan current_age Hs. apply check_sliders.
    vm_compute. reflexivity. }
  unfold percentage_text_exact, exact_hundredths in Hcheck.
  destruct (compute_metrics expected_lifespan current_age) as [e|m]; [done|].
  exists m. split; [done|]. split; [by apply String.eqb_eq|].
  destruct Hs as [HL Ha]. unfold round_half_even.
  assert (0 ≤ 10000 * current_age / expected_lifespan ≤ 10000) as Hq.
  { split; [apply Z.div_pos; lia|].
    apply Z.div_le_upper_bound; nia. }
  assert (10000 * current_age / expected_lifespan = 10000 →
          (10000 * current_age) mod expected_lifespan = 0) as Hfull.
  { intros Hq'. pose proof (Z.div_mod (10000 * current_age) expected_lifespan).
    pose proof (Z.mod_pos_bound (10000 * current_age) expected_lifespan). nia. }
  pose proof (Z.mod_pos_bound (10000 * current_age) expected_lifespan) as Hmod.
  repeat case_match; lia.
Qed.

Lemma X11_shown_percentage_is_exact_witness :
  ∃ m, compute_metrics 96 3 = inr m
       ∧ format_2f (percentage_lived m) = hundredths_text 312.
Proof.
  destruct (X11_shown_percentage_is_exact 96 3) as (m & Hm & Htext & _).
  - unfold slider_values. lia.
  - exists m. split; [exact Hm|exact Htext].
Defined.

(** X12: for every slider setting [main] raises nothing: it allocates the
    grid, renders it, and shows the months lived and the months in total
    with thousands separators and the percentage with two decimals and a
    percent sign. *)
Theorem X12_main_returns (expected_lifespan current_age : Z) (h : heap) :
  slider_values expected_lifespan current_age →
  ∃ g html m,
    main expected_lifespan current_age h =
    inr (View html
              (format_thousands (current_age * 12))
              (format_thousands (expected_lifespan * 12))
              (format_2f (percentage_lived m) +:+ "%"),
         h ++ [g])
    ∧ returns (create_life_months_grid expected_lifespan current_age) h g
    ∧ render_life_months g = inr html
    ∧ compute_metrics expected_lifespan current_age = inr m.
Proof.
  intros [HL Ha].
  destruct (grid_value_valid expected_lifespan current_age HL Ha) as (g & Hg & _).
  destruct (statuses_have_colors _ (grid_value_statuses _ _ _ Hg))
    as (colors & Hcolors).
  assert (render_life_months g = inr (grid_open +:+ divs colors +:+ "</div>"))
    as Hrender by (apply render_life_months_returns; eauto).
  eexists g, _, _. split; [|split; [by apply returns_grid_value|split]].
  - unfold main. rewrite create_life_months_grid_run, Hg.
    assert ((h ++ [g]) !!! length h = g) as ->.
    { apply list_lookup_total_correct.
      rewrite lookup_app_r by lia. by rewrite Nat.sub_diag. }
    rewrite Hrender, compute_metrics_nonzero by lia. reflexivity.
  - done.
  - apply compute_metrics_nonzero. lia.
Qed.

Lemma X12_main_returns_witness :
  ∃ g html m,
    main 90 30 [] =
    inr (View html (format_thousands (30 * 12)) (format_thousands (90 * 12))
              (format_2f (percentage_lived m) +:+ "%"),
         [] ++ [g]).
Proof.
  destruct (X12_main_returns 90 30 []) as (g & html & m & Hmain & _).
  - unfold slider_values. lia.
  - exists g, html, m. exact Hmain.
Defined.

(** ** Thousands separators *)






